(** * A shallow embedding of the todo server (src/server/index.js)

    The server keeps two module-level variables, [todos] and [nextId],
    writes them to a snapshot file after every mutation and reads them
    back at startup.  Each route handler is embedded as a computation in
    a state monad over a [World] that holds the two variables, the disk
    and the system clock.

    Modelling conventions.
    - Values that come out of [JSON.parse] (request bodies, fields a
      client may overwrite) are kept dynamically typed, see [value].
    - The numbers the program computes with are integers (ids, the id
      counter).  They are embedded in [Z]; JavaScript numbers agree with
      [Z] on integers of magnitude up to 2^53.  Of a number in a request
      body the handlers inspect only whether it is zero.
    - A string is a sequence of code units; [ascii] stands for the code
      units 0..255.
    - [JSON.stringify], [JSON.parse], the file system and the clock
      belong to the runtime.  The codec is an interface ([JSON]), the
      disk and the clock are fields of the [World].
    - Console output is not modelled. *)

From Stdlib Require Import ZArith Ascii String.
From stdpp Require Import base option list strings gmap pretty.

Local Open Scope string_scope.
Local Open Scope Z_scope.
Local Set Warnings "-register-all".

(** ** JavaScript values *)

(** The values [JSON.parse] can produce.  [undefined] (a missing
    property) is the [None] of an [option value]. *)
Inductive value : Type :=
  | VNull
  | VBool (b : bool)
  | VNum (n : Z)
  | VStr (s : string)
  | VArr (items : list value)
  | VObj (props : list (string * value)).

(** [ToBoolean]: what [!v] and [v || d] inspect. *)
Definition truthy (v : value) : bool :=
  match v with
  | VNull => false
  | VBool b => b
  | VNum n => negb (n =? 0)
  | VStr s => negb (String.eqb s "")
  | VArr _ => true
  | VObj _ => true
  end.

(** [!x] for a possibly undefined [x]. *)
Definition falsy (x : option value) : bool :=
  match x with
  | Some v => negb (truthy v)
  | None => true
  end.

(** [x || d]. *)
Definition or_else (x : option value) (d : value) : value :=
  match x with
  | Some v => if truthy v then v else d
  | None => d
  end.

(** [x || d] where [x] is an array or undefined: arrays are truthy. *)
Definition array_or_else {A} (x : option (list A)) (d : list A) : list A :=
  match x with
  | Some l => l
  | None => d
  end.

(** [x || d] where [x] is a number or undefined: zero is falsy. *)
Definition number_or_else (x : option Z) (d : Z) : Z :=
  match x with
  | Some n => if n =? 0 then d else n
  | None => d
  end.

(** ** Data model *)

(** The object literal built by the create handler (index.js:88-95). *)
Record Todo : Type := mkTodo {
  id : Z;
  title : value;
  description : value;
  completed : value;
  createdAt : string;
  updatedAt : string;
}.

(** The two module-level variables (index.js:25-26). *)
Record Store : Type := mkStore {
  todos : list Todo;
  nextId : Z;
}.

Definition emptyStore : Store := {| todos := []; nextId := 1 |}.

(** What [JSON.parse] returns for a snapshot: an object whose two
    properties may each be missing. *)
Record Parsed : Type := mkParsed {
  parsed_todos : option (list Todo);
  parsed_nextId : option Z;
}.

(** The runtime's JSON codec, for snapshots.  [JSON_parse] returns
    [None] where [JSON.parse] throws, or returns [null] so that reading
    a property of the result throws. *)
Class JSON (text : Type) : Type := {
  JSON_stringify : Store → text;
  JSON_parse : text → option Parsed;
}.

(** Parsing the text written for [{ todos, nextId }] gives back an
    object with these two properties. *)
Class JSONRoundTrip (text : Type) `{JSON text} : Prop :=
  parse_stringify : ∀ s : Store,
    JSON_parse (JSON_stringify s) =
    Some {| parsed_todos := Some (todos s); parsed_nextId := Some (nextId s) |}.

(** ** The world: memory, disk, clock *)

Inductive fs_error : Type := ENOENT | EIO.

(** The snapshot file: its content if it exists, and whether the
    device fails on access. *)
Record Disk (text : Type) : Type := mkDisk {
  file : option text;
  faulty : bool;
}.
Arguments mkDisk {text} _ _.
Arguments file {text} _.
Arguments faulty {text} _.

(** [clock k] is the string the [k]-th call of
    [new Date().toISOString()] returns; [reads] counts the calls made. *)
Record World (text : Type) : Type := mkWorld {
  store : Store;
  disk : Disk text;
  clock : nat → string;
  reads : nat;
}.
Arguments mkWorld {text} _ _ _ _.
Arguments store {text} _.
Arguments disk {text} _.
Arguments clock {text} _ _.
Arguments reads {text} _.

(** The process right after the module is evaluated. *)
Definition boot {text} (d : Disk text) (c : nat → string) : World text :=
  {| store := emptyStore; disk := d; clock := c; reads := 0 |}.

(** ** A state monad over the world *)

Module St.
Definition M (text A : Type) : Type := World text → A * World text.

Definition ret {text A} (a : A) : M text A := λ w, (a, w).

Definition bind {text A B} (m : M text A) (k : A → M text B) : M text B :=
  λ w, let '(a, w') := m w in k a w'.

Definition gets {text A} (f : Store → A) : M text A := λ w, (f (store w), w).

Definition modify {text} (f : Store → Store) : M text unit :=
  λ w, (tt, {| store := f (store w); disk := disk w;
               clock := clock w; reads := reads w |}).
End St.

Notation "'let*' x := m 'in' k" := (St.bind m (λ x, k))
  (at level 10, x name, m at level 100, k at level 200, only parsing).
Notation "'do' m 'in' k" := (St.bind m (λ _, k))
  (at level 10, m at level 100, k at level 200, only parsing).

Section Runtime.
Context {text : Type}.

(** [await fs.readFile(DATA_FILE, 'utf8')] *)
Definition readFile : St.M text (fs_error + text) := λ w,
  (if faulty (disk w) then inl EIO
   else match file (disk w) with
        | Some data => inr data
        | None => inl ENOENT
        end, w).

(** [await fs.writeFile(DATA_FILE, data, 'utf8')], taken as one step
    that is over before anything else happens: a failing device
    refuses it before the file is opened, otherwise the file holds
    [data] when it returns.  A write that fails after the file was
    truncated, and the writes of several requests in flight at once,
    are not modelled. *)
Definition writeFile (data : text) : St.M text (fs_error + unit) := λ w,
  if faulty (disk w) then (inl EIO, w)
  else (inr tt, {| store := store w;
                   disk := {| file := Some data; faulty := false |};
                   clock := clock w; reads := reads w |}).

(** [new Date().toISOString()] *)
Definition now : St.M text string := λ w,
  (clock w (reads w),
   {| store := store w; disk := disk w;
      clock := clock w; reads := S (reads w) |}).
End Runtime.

(** ** Persistence gateway *)

Section Persistence.
Context {text : Type} `{JSON text}.

(** [saveData] (index.js:47-55).  A failed write is caught and only
    logged. *)
Definition saveData : St.M text unit :=
  let* s := St.gets (λ s, s) in
  let data := JSON_stringify s in
  let* r := writeFile data in
  match r with
  | inr _ => St.ret tt
  | inl _ => St.ret tt
  end.

(** [loadData] (index.js:29-44). *)
Definition loadData : St.M text unit :=
  let* r := readFile in
  match r with
  | inr data =>
      match JSON_parse data with
      | Some parsed =>
          St.modify (λ _,
            {| todos := array_or_else (parsed_todos parsed) [];
               nextId := number_or_else (parsed_nextId parsed) 1 |})
      | None => St.ret tt
      end
  | inl ENOENT => saveData
  | inl _ => St.ret tt
  end.
End Persistence.

(** ** Path parameters *)

(** [StrWhiteSpaceChar] among the code units 0..255: TAB, LF, VT, FF, CR,
    SP and NBSP. *)
Definition is_white_space (c : ascii) : bool :=
  let n := Z.of_N (Ascii.N_of_ascii c) in
  ((9 <=? n) && (n <=? 13)) || (n =? 32) || (n =? 160).

Fixpoint trim_start (s : string) : string :=
  match s with
  | String c s' => if is_white_space c then trim_start s' else s
  | EmptyString => s
  end.

(** The value of a code unit as a digit: 0-9, then a-z or A-Z for 10-35. *)
Definition digit_value (c : ascii) : option Z :=
  let n := Z.of_N (Ascii.N_of_ascii c) in
  if (48 <=? n) && (n <=? 57) then Some (n - 48)
  else if (97 <=? n) && (n <=? 122) then Some (n - 87)
  else if (65 <=? n) && (n <=? 90) then Some (n - 55)
  else None.

Definition radix_digit (R : Z) (c : ascii) : option Z :=
  match digit_value c with
  | Some d => if d <? R then Some d else None
  | None => None
  end.

(** The digits of the longest prefix of [s] made of radix-[R] digits. *)
Fixpoint digits_prefix (R : Z) (s : string) : list Z :=
  match s with
  | String c s' =>
      match radix_digit R c with
      | Some d => d :: digits_prefix R s'
      | None => []
      end
  | EmptyString => []
  end.

Definition digits_value (R : Z) (ds : list Z) : Z :=
  fold_left (λ acc d, acc * R + d) ds 0.

(** The steps of [parseInt(s)] with no radix argument (ECMA-262,
    19.2.5).  The sign is taken from a leading [-]; a leading [+] or [-]
    is removed; a [0x] or [0X] prefix is removed and selects radix 16. *)
Definition sign_of (s : string) : Z :=
  match s with
  | String c _ => if Ascii.eqb c "-" then -1 else 1
  | EmptyString => 1
  end.

Definition strip_sign (s : string) : string :=
  match s with
  | String c r => if Ascii.eqb c "-" || Ascii.eqb c "+" then r else s
  | EmptyString => s
  end.

Definition has_hex_prefix (s : string) : bool :=
  match s with
  | String c0 (String c1 _) =>
      Ascii.eqb c0 "0" && (Ascii.eqb c1 "x" || Ascii.eqb c1 "X")
  | _ => false
  end.

Definition strip_hex_prefix (s : string) : string :=
  match s with
  | String _ (String _ r) => r
  | _ => s
  end.

(** [parseInt(s)]: leading white space is dropped, then the sign, then
    the radix prefix, and the longest prefix of digits is converted.
    [None] is [NaN]. *)
Definition parseInt (s : string) : option Z :=
  let S0 := trim_start s in
  let sign := sign_of S0 in
  let S1 := strip_sign S0 in
  let R := if has_hex_prefix S1 then 16 else 10 in
  let S2 := if has_hex_prefix S1 then strip_hex_prefix S1 else S1 in
  match digits_prefix R S2 with
  | [] => None
  | ds => Some (sign * digits_value R ds)
  end.

(** [a === b] for a number [a] and a number-or-NaN [b]. *)
Definition strict_eq (a : Z) (b : option Z) : bool :=
  match b with
  | Some n => a =? n
  | None => false
  end.

(** ** Array methods *)

(** [Array.prototype.findIndex]; [None] is [-1]. *)
Fixpoint findIndex {A} (p : A → bool) (l : list A) : option nat :=
  match l with
  | [] => None
  | x :: l' => if p x then Some 0%nat else S <$> findIndex p l'
  end.

(** [Array.prototype.find]; [None] is [undefined]. *)
Fixpoint find {A} (p : A → bool) (l : list A) : option A :=
  match l with
  | [] => None
  | x :: l' => if p x then Some x else find p l'
  end.

(** ** HTTP requests and responses *)

(** A request body as [express.json()] leaves it in [req.body]. *)
Abbreviation Body := (gmap string value).

(** The JSON documents the handlers send. *)
Inductive Json : Type :=
  | JList (success : bool) (data : list Todo)
  | JTodo (success : bool) (data : Todo)
  | JMessage (success : bool) (message : string)
  | JHealth (status : string) (count : nat).

Record Response : Type := mkResponse {
  status : nat;
  json : Json;
}.

(** [res.json(j)] and [res.status(c).json(j)]. *)
Definition res_json (j : Json) : Response := {| status := 200; json := j |}.
Definition res_status_json (c : nat) (j : Json) : Response :=
  {| status := c; json := j |}.

Definition not_found : Response :=
  res_status_json 404 (JMessage false "Todo not found").

#[global] Instance Todo_inhabited : Inhabited Todo :=
  populate (mkTodo 0 VNull VNull VNull "" "").

(** ** Updates of the store *)

Definition set_todos (l : list Todo) (s : Store) : Store :=
  {| todos := l; nextId := nextId s |}.

Definition set_nextId (n : Z) (s : Store) : Store :=
  {| todos := todos s; nextId := n |}.

Definition set_completed (c : value) (t : Todo) : Todo :=
  {| id := id t; title := title t; description := description t;
     completed := c; createdAt := createdAt t; updatedAt := updatedAt t |}.

Definition set_updatedAt (u : string) (t : Todo) : Todo :=
  {| id := id t; title := title t; description := description t;
     completed := completed t; createdAt := createdAt t; updatedAt := u |}.

(** The object spread of the update handler (index.js:116-122): the
    properties of [old], then each destructured property that is not
    [undefined], then [updatedAt]. *)
Definition spread (old : Todo) (title' description' completed' : option value)
    (u : string) : Todo :=
  {| id := id old;
     title := default (title old) title';
     description := default (description old) description';
     completed := default (completed old) completed';
     createdAt := createdAt old;
     updatedAt := u |}.

(** The routes, with the raw [:id] path parameter. *)
Inductive Request : Type :=
  | GetTodos
  | GetTodo (param : string)
  | PostTodo (body : Body)
  | PutTodo (param : string) (body : Body)
  | PatchToggle (param : string)
  | DeleteTodo (param : string)
  | DeleteCompleted
  | Health.

(** ** Route handlers *)

Section Handlers.
Context {text : Type} `{JSON text}.

(** [GET /api/todos] *)
Definition get_todos : St.M text Response :=
  let* l := St.gets todos in
  St.ret (res_json (JList true l)).

(** [GET /api/todos/:id] *)
Definition get_todo (param : string) : St.M text Response :=
  let id_ := parseInt param in
  let* l := St.gets todos in
  match find (λ t, strict_eq (id t) id_) l with
  | None => St.ret not_found
  | Some todo => St.ret (res_json (JTodo true todo))
  end.

(** [POST /api/todos].  [nextId++] is [n + 1] on integers below 2^53 in
    magnitude; at 2^53 the JavaScript number does not advance, which
    the integer model does not show. *)
Definition post_todo (body : Body) : St.M text Response :=
  let title_ := body !! "title" in
  let description_ := body !! "description" in
  match title_ with
  | Some t =>
      if truthy t then
        let* n := St.gets nextId in
        do St.modify (set_nextId (n + 1)) in
        let* created := now in
        let* updated := now in
        let newTodo :=
          {| id := n; title := t;
             description := or_else description_ (VStr "");
             completed := VBool false;
             createdAt := created; updatedAt := updated |} in
        do St.modify (λ s, set_todos (todos s ++ [newTodo]) s) in
        do saveData in
        St.ret (res_status_json 201 (JTodo true newTodo))
      else St.ret (res_status_json 400 (JMessage false "Title is required"))
  | None => St.ret (res_status_json 400 (JMessage false "Title is required"))
  end.

(** [PUT /api/todos/:id].  The index [findIndex] returns is in range,
    so [l !!! i] is [todos[todoIndex]]. *)
Definition put_todo (param : string) (body : Body) : St.M text Response :=
  let id_ := parseInt param in
  let title_ := body !! "title" in
  let description_ := body !! "description" in
  let completed_ := body !! "completed" in
  let* l := St.gets todos in
  match findIndex (λ t, strict_eq (id t) id_) l with
  | None => St.ret not_found
  | Some todoIndex =>
      let* u := now in
      let updatedTodo := spread (l !!! todoIndex) title_ description_ completed_ u in
      do St.modify (λ s, set_todos (<[todoIndex := updatedTodo]> (todos s)) s) in
      do saveData in
      St.ret (res_json (JTodo true updatedTodo))
  end.

(** [PATCH /api/todos/:id/toggle] *)
Definition patch_toggle (param : string) : St.M text Response :=
  let id_ := parseInt param in
  let* l := St.gets todos in
  match findIndex (λ t, strict_eq (id t) id_) l with
  | None => St.ret not_found
  | Some todoIndex =>
      do St.modify (λ s, set_todos
           (alter (λ t, set_completed (VBool (negb (truthy (completed t)))) t)
                  todoIndex (todos s)) s) in
      let* u := now in
      do St.modify (λ s, set_todos (alter (set_updatedAt u) todoIndex (todos s)) s) in
      do saveData in
      let* l' := St.gets todos in
      St.ret (res_json (JTodo true (l' !!! todoIndex)))
  end.

(** [DELETE /api/todos/:id]; [todos.splice(todoIndex, 1)[0]]. *)
Definition delete_todo (param : string) : St.M text Response :=
  let id_ := parseInt param in
  let* l := St.gets todos in
  match findIndex (λ t, strict_eq (id t) id_) l with
  | None => St.ret not_found
  | Some todoIndex =>
      let deletedTodo := l !!! todoIndex in
      do St.modify (λ s, set_todos (delete todoIndex (todos s)) s) in
      do saveData in
      St.ret (res_json (JTodo true deletedTodo))
  end.

(** [DELETE /api/todos/completed/all] *)
Definition delete_completed : St.M text Response :=
  let* initialLength := St.gets (λ s, length (todos s)) in
  do St.modify (λ s,
       set_todos (List.filter (λ t, negb (truthy (completed t))) (todos s)) s) in
  let* remaining := St.gets (λ s, length (todos s)) in
  let deletedCount := (initialLength - remaining)%nat in
  do saveData in
  St.ret (res_json
    (JMessage true ("Deleted " +:+ pretty deletedCount +:+ " completed todos"))).

(** [GET /health] *)
Definition health : St.M text Response :=
  let* n := St.gets (λ s, length (todos s)) in
  St.ret (res_json (JHealth "ok" n)).

Definition handle (r : Request) : St.M text Response :=
  match r with
  | GetTodos => get_todos
  | GetTodo p => get_todo p
  | PostTodo b => post_todo b
  | PutTodo p b => put_todo p b
  | PatchToggle p => patch_toggle p
  | DeleteTodo p => delete_todo p
  | DeleteCompleted => delete_completed
  | Health => health
  end.

(** Serving a sequence of requests one at a time: each handler runs to
    its response, its awaited save included, before the next request
    is taken.  Requests that overlap at an [await] are not modelled. *)
Fixpoint serve (rs : list Request) : St.M text (list Response) :=
  match rs with
  | [] => St.ret []
  | r :: rs' =>
      let* a := handle r in
      let* rest := serve rs' in
      St.ret (a :: rest)
  end.
End Handlers.

(** ** Concrete instances used in examples *)

(** A codec whose text is the snapshot itself. *)
#[global] Instance plain_JSON : JSON Store := {
  JSON_stringify s := s;
  JSON_parse data :=
    Some {| parsed_todos := Some (todos data); parsed_nextId := Some (nextId data) |};
}.

(** A clock that advances by one millisecond at every reading. *)
Definition millis (k : nat) : string :=
  "2024-05-01T09:30:00.00" +:+ pretty (k `mod` 10)%nat +:+ "Z".

(** A process started on an empty disk. *)
Definition cold : World Store := boot {| file := None; faulty := false |} millis.

Definition buy_milk : Body := {[ "title" := VStr "Buy milk" ]}.

(** The store after two creations, the first todo then completed. *)
Definition two_todos : World Store :=
  (serve [PostTodo buy_milk;
          PostTodo {[ "title" := VStr "Call home" ]};
          PatchToggle "1"] cold).2.

(** The second todo of [two_todos], and a patch that completes it. *)
Definition call_home : Todo :=
  mkTodo 2 (VStr "Call home") (VStr "") (VBool false)
    "2024-05-01T09:30:00.002Z" "2024-05-01T09:30:00.003Z".

Definition mark_done : Body := {[ "completed" := VBool true ]}.

(** ** Predicates used in the statements *)

(** The disk after an attempt to write [data] to the snapshot file. *)
Definition written {text} (data : text) (d : Disk text) : Disk text :=
  if faulty d then d else {| file := Some data; faulty := false |}.

(** The world whose store is [s], after [k] further clock readings and
    one attempt to save. *)
Definition saved {text} `{JSON text} (s : Store) (k : nat) (w : World text) :
    World text :=
  {| store := s; disk := written (JSON_stringify s) (disk w);
     clock := clock w; reads := (k + reads w)%nat |}.

Definition ids (s : Store) : list Z := id <$> todos s.

(** The store invariant: ids are pairwise distinct and below [nextId]. *)
Definition well_numbered (s : Store) : Prop :=
  NoDup (ids s) ∧ ∀ n, n ∈ ids s → n < nextId s.


(** The ids handed out by the creations among a run's responses. *)
Definition issued (rs : list Response) : list Z :=
  omap (λ r, match status r, json r with
             | 201%nat, JTodo _ t => Some (id t)
             | _, _ => None
             end) rs.

(** [completed] is the boolean [b]. *)
Definition completed_is (b : bool) (t : Todo) : bool :=
  match completed t with
  | VBool c => Bool.eqb c b
  | _ => false
  end.

Definition is_decimal_digit (c : ascii) : bool :=
  let n := Z.of_N (Ascii.N_of_ascii c) in (48 <=? n) && (n <=? 57).

Fixpoint all_decimal_digits (s : string) : bool :=
  match s with
  | String c s' => is_decimal_digit c && all_decimal_digits s'
  | EmptyString => true
  end.


(** A numeric parameter: an optional sign, then one or more decimal
    digits and nothing else. *)
Definition is_numeral (s : string) : bool :=
  let digits :=
    match s with
    | String c r => if Ascii.eqb c "-" || Ascii.eqb c "+" then r else s
    | EmptyString => s
    end in
  negb (String.eqb digits "") && all_decimal_digits digits.

Definition starts_with_digit (s : string) : bool :=
  match s with
  | String c _ => is_decimal_digit c
  | EmptyString => false
  end.

(** [s] without its leading white space and one optional sign. *)
Definition unsigned_part (s : string) : string := strip_sign (trim_start s).

Definition is_hex_digit (c : ascii) : bool :=
  let n := Z.of_N (Ascii.N_of_ascii c) in
  ((48 <=? n) && (n <=? 57)) || ((97 <=? n) && (n <=? 102)) ||
  ((65 <=? n) && (n <=? 70)).

Definition starts_with_hex_digit (s : string) : bool :=
  match s with
  | String c _ => is_hex_digit c
  | EmptyString => false
  end.

(** [s] begins with no number: after its leading white space and one
    optional sign comes [0x] or [0X] without a hexadecimal digit after
    it, or something that is neither that nor a decimal digit. *)
Definition no_number_prefix (s : string) : bool :=
  let u := unsigned_part s in
  if has_hex_prefix u then negb (starts_with_hex_digit (strip_hex_prefix u))
  else negb (starts_with_digit u).





(** ** Start-up *)

Section Startup.
Context {text : Type} `{JSON text}.

(** [startServer] (index.js:187-195) up to [app.listen], which binds
    the port and logs. *)
Definition startServer : St.M text unit := loadData.
End Startup.

(** ** Further predicates *)

(** The world with another disk in place of its own. *)
Definition with_disk {text} (d : Disk text) (w : World text) : World text :=
  {| store := store w; disk := d; clock := clock w; reads := reads w |}.

(** The disk works and the snapshot file holds the current store. *)
Definition in_sync {text} `{JSON text} (w : World text) : Prop :=
  faulty (disk w) = false ∧ file (disk w) = Some (JSON_stringify (store w)).

Fixpoint all_white_space (s : string) : bool :=
  match s with
  | String c s' => is_white_space c && all_white_space s'
  | EmptyString => true
  end.


(** The routes that only read. *)
Definition read_only (r : Request) : bool :=
  match r with
  | GetTodos | GetTodo _ | Health => true
  | _ => false
  end.


(** * Properties *)

(** ** Array methods *)

Section Arrays.
Context {A : Type} (p : A → bool).

Lemma findIndex_None (l : list A) :
  findIndex p l = None ↔ ∀ x, x ∈ l → p x = false.
Proof.
  induction l as [|a l IH]; simpl.
  - split; [intros _ x Hx; inversion Hx | done].
  - destruct (p a) eqn:Ha.
    + split; [done |]. intros Hall.
      specialize (Hall a (list_elem_of_here _ _)). congruence.
    + destruct (findIndex p l) as [i|] eqn:Hi; simpl.
      * split; [done |]. intros Hall.
        assert (Some i = None) as Hn; [| done].
        apply IH. intros x Hx. apply Hall. by right.
      * split; [| done]. intros _ x Hx.
        apply elem_of_cons in Hx as [-> | Hx]; [done |].
        by apply IH.
Qed.

Lemma findIndex_Some (l : list A) (i : nat) :
  findIndex p l = Some i →
  ∃ x, l !! i = Some x ∧ p x = true ∧
       ∀ j y, (j < i)%nat → l !! j = Some y → p y = false.
Proof.
  revert i. induction l as [|a l IH]; intros i; simpl; [done |].
  destruct (p a) eqn:Ha.
  - intros [= <-]. exists a. split_and!; [done | done |]. intros j y Hj. lia.
  - destruct (findIndex p l) as [k|] eqn:Hk; simpl; [| done].
    intros [= <-]. destruct (IH k eq_refl) as (x & Hx & Hpx & Hlt).
    exists x. split_and!; [done | done |].
    intros [|j] y Hj; simpl; [by intros [= <-] |].
    apply Hlt. lia.
Qed.

Lemma find_findIndex (l : list A) :
  find p l = i ← findIndex p l; l !! i.
Proof.
  induction l as [|a l IH]; simpl; [done |].
  destruct (p a); [done |]. rewrite IH.
  by destruct (findIndex p l).
Qed.
End Arrays.


Lemma findIndex_no_match (l : list Todo) (n : option Z) :
  (∀ t, t ∈ l → n ≠ Some (id t)) →
  findIndex (λ x, strict_eq (id x) n) l = None.
Proof.
  intros Hno. apply findIndex_None. intros x Hx.
  destruct n as [k|]; simpl; [| done].
  apply Z.eqb_neq. intros Heq. apply (Hno x Hx). by rewrite Heq.
Qed.

Lemma deleted_id_gone (l : list Todo) (i : nat) (x : Todo) :
  NoDup (id <$> l) → l !! i = Some x → id x ∉ id <$> delete i l.
Proof.
  intros Hnd Hx Hin.
  rewrite <- (take_drop_middle _ _ _ Hx), fmap_app, fmap_cons in Hnd.
  apply NoDup_app in Hnd as (_ & Hl & Hr).
  apply NoDup_cons in Hr as [Hr _].
  rewrite delete_take_drop, fmap_app in Hin.
  apply elem_of_app in Hin as [Hin | Hin]; [| done].
  apply (Hl (id x) Hin). by left.
Qed.

Lemma lookup_total_Some (l : list Todo) (i : nat) (t : Todo) :
  l !! i = Some t → l !!! i = t.
Proof. intros Hl. by rewrite list_lookup_total_alt, Hl. Qed.

(** ** The handlers, case by case *)

Section Equations.
Context {text : Type} `{JSON text}.
Implicit Types (w : World text) (body : Body) (param : string).

Lemma saveData_eq w : saveData w = (tt, saved (store w) 0 w).
Proof.
  unfold saveData, saved, written, St.bind, St.gets, St.ret, writeFile.
  destruct w as [s [f flt] c r]; simpl. by destruct flt.
Qed.

Lemma get_todo_eq param w :
  get_todo param w =
  (match findIndex (λ t, strict_eq (id t) (parseInt param)) (todos (store w)) with
   | Some i => res_json (JTodo true (todos (store w) !!! i))
   | None => not_found
   end, w).
Proof.
  unfold get_todo, St.bind, St.gets, St.ret. rewrite find_findIndex.
  destruct (findIndex _ _) as [i|] eqn:Hi; simpl; [| done].
  apply findIndex_Some in Hi as (x & Hx & _).
  by rewrite Hx, (lookup_total_Some _ _ _ Hx).
Qed.

Lemma post_todo_rejected body w :
  falsy (body !! "title") = true →
  post_todo body w =
  (res_status_json 400 (JMessage false "Title is required"), w).
Proof.
  unfold post_todo, falsy. destruct (body !! "title") as [t|]; [| done].
  by destruct (truthy t).
Qed.

Lemma post_todo_accepted body w t :
  body !! "title" = Some t → truthy t = true →
  let newTodo :=
    {| id := nextId (store w); title := t;
       description := or_else (body !! "description") (VStr "");
       completed := VBool false;
       createdAt := clock w (reads w);
       updatedAt := clock w (S (reads w)) |} in
  post_todo body w =
  (res_status_json 201 (JTodo true newTodo),
   saved {| todos := todos (store w) ++ [newTodo];
            nextId := nextId (store w) + 1 |} 2 w).
Proof.
  intros Ht Htrue. unfold post_todo. rewrite Ht, Htrue.
  unfold St.bind, St.gets, St.modify, St.ret, now. simpl.
  by rewrite saveData_eq.
Qed.

Lemma put_todo_eq param body w :
  put_todo param body w =
  match findIndex (λ t, strict_eq (id t) (parseInt param)) (todos (store w)) with
  | Some i =>
      let updatedTodo :=
        spread (todos (store w) !!! i) (body !! "title")
               (body !! "description") (body !! "completed")
               (clock w (reads w)) in
      (res_json (JTodo true updatedTodo),
       saved (set_todos (<[i := updatedTodo]> (todos (store w))) (store w)) 1 w)
  | None => (not_found, w)
  end.
Proof.
  unfold put_todo, St.bind, St.gets, St.modify, St.ret, now. simpl.
  destruct (findIndex _ _); [| done]. simpl. by rewrite saveData_eq.
Qed.

Lemma patch_toggle_eq param w :
  patch_toggle param w =
  match findIndex (λ t, strict_eq (id t) (parseInt param)) (todos (store w)) with
  | Some i =>
      let l' :=
        alter (set_updatedAt (clock w (reads w))) i
          (alter (λ t, set_completed (VBool (negb (truthy (completed t)))) t) i
             (todos (store w))) in
      (res_json (JTodo true (l' !!! i)), saved (set_todos l' (store w)) 1 w)
  | None => (not_found, w)
  end.
Proof.
  unfold patch_toggle, St.bind, St.gets, St.modify, St.ret, now. simpl.
  destruct (findIndex _ _); [| done]. simpl. by rewrite saveData_eq.
Qed.

Lemma delete_todo_eq param w :
  delete_todo param w =
  match findIndex (λ t, strict_eq (id t) (parseInt param)) (todos (store w)) with
  | Some i =>
      (res_json (JTodo true (todos (store w) !!! i)),
       saved (set_todos (delete i (todos (store w))) (store w)) 0 w)
  | None => (not_found, w)
  end.
Proof.
  unfold delete_todo, St.bind, St.gets, St.modify, St.ret. simpl.
  destruct (findIndex _ _); [| done]. simpl. by rewrite saveData_eq.
Qed.

Lemma delete_completed_eq w :
  let kept := List.filter (λ t, negb (truthy (completed t))) (todos (store w)) in
  delete_completed w =
  (res_json (JMessage true
     ("Deleted " +:+ pretty (length (todos (store w)) - length kept)%nat
      +:+ " completed todos")),
   saved (set_todos kept (store w)) 0 w).
Proof.
  unfold delete_completed, St.bind, St.gets, St.modify, St.ret. simpl.
  by rewrite saveData_eq.
Qed.
End Equations.

(** ** The example store *)

Example two_todos_store :
  store two_todos =
  {| todos := [mkTodo 1 (VStr "Buy milk") (VStr "") (VBool true)
                 "2024-05-01T09:30:00.000Z" "2024-05-01T09:30:00.004Z";
               call_home];
     nextId := 3 |}.
Proof. vm_compute. reflexivity. Qed.

Example two_todos_ids : NoDup (ids (store two_todos)).
Proof.
  unfold ids. rewrite two_todos_store. simpl.
  apply (bool_decide_unpack _). by vm_compute.
Qed.


(** ** Persistence *)

#[global] Instance plain_JSON_round_trip : JSONRoundTrip Store.
Proof. by intros s. Qed.

(** C1.  Saving a valid store (any sequence of todos, [nextId] at least
    1) on a working disk and then loading the snapshot into a freshly
    booted process gives back the same sequence of todos and the same
    [nextId], provided the runtime's JSON codec reads back what it
    wrote. *)
Theorem save_then_load_round_trip {text : Type} `{JSONRoundTrip text}
    (w : World text) (c : nat → string) :
  1 ≤ nextId (store w) →
  faulty (disk w) = false →
  store (loadData (boot (disk (saveData w).2) c)).2 = store w.
Proof.
  intros Hnext Hdisk. rewrite saveData_eq. simpl.
  unfold written. rewrite Hdisk.
  unfold loadData, St.bind, readFile, St.modify. simpl.
  rewrite parse_stringify. simpl.
  unfold number_or_else.
  destruct (Z.eqb_spec (nextId (store w)) 0) as [Hz | _]; [lia |].
  by destruct (store w).
Qed.

Lemma save_then_load_round_trip_witness :
  store (loadData (boot (disk (saveData two_todos).2) millis)).2 = store two_todos.
Proof.
  apply (save_then_load_round_trip two_todos millis).
  - rewrite two_todos_store. simpl. lia.
  - reflexivity.
Defined.

(** Without the bound on [nextId] the snapshot does not come back:
    a zero counter is read as 1. *)
Example load_zero_nextId :
  let w := {| store := {| todos := []; nextId := 0 |};
              disk := {| file := None; faulty := false |};
              clock := millis; reads := 0 |} in
  nextId (store (loadData (boot (disk (saveData w).2) millis)).2) = 1.
Proof. reflexivity. Qed.

(** ** Creation *)

(** C2.  A creation whose body has no title, or the empty string as
    title, is answered 400 "Title is required" and changes nothing:
    the store (sequence and [nextId]), the disk and the clock are as
    before. *)
Theorem post_without_title_rejected {text : Type} `{JSON text}
    (w : World text) (body : Body) :
  body !! "title" = None ∨ body !! "title" = Some (VStr "") →
  post_todo body w =
  ({| status := 400; json := JMessage false "Title is required" |}, w).
Proof.
  intros Htitle. apply post_todo_rejected.
  by destruct Htitle as [-> | ->].
Qed.

Lemma post_without_title_rejected_witness :
  post_todo (∅ : Body) two_todos =
  ({| status := 400; json := JMessage false "Title is required" |}, two_todos) ∧
  post_todo ({[ "title" := VStr "" ]} : Body) two_todos =
  ({| status := 400; json := JMessage false "Title is required" |}, two_todos).
Proof.
  split.
  - apply (post_without_title_rejected two_todos ∅). by left.
  - apply (post_without_title_rejected two_todos {[ "title" := VStr "" ]}).
    by right.
Defined.




(** ** Update *)



(** ** Unknown ids *)

(** C5.  When no todo of the store has the id the path parameter parses
    to, get, update, toggle and delete each answer 404 "Todo not found"
    and leave the store (sequence and [nextId]), the disk and the clock
    as they were.  In a store with distinct ids, deleting the same id a
    second time is such a case. *)
Theorem unknown_id_not_found {text : Type} `{JSON text}
    (w : World text) (param : string) (body : Body) :
  ((∀ t, t ∈ todos (store w) → parseInt param ≠ Some (id t)) →
   get_todo param w =
     ({| status := 404; json := JMessage false "Todo not found" |}, w) ∧
   put_todo param body w =
     ({| status := 404; json := JMessage false "Todo not found" |}, w) ∧
   patch_toggle param w =
     ({| status := 404; json := JMessage false "Todo not found" |}, w) ∧
   delete_todo param w =
     ({| status := 404; json := JMessage false "Todo not found" |}, w)) ∧
  (NoDup (ids (store w)) →
   delete_todo param (delete_todo param w).2 =
     ({| status := 404; json := JMessage false "Todo not found" |},
      (delete_todo param w).2)).
Proof.
  split.
  - intros Hno. apply findIndex_no_match in Hno.
    rewrite get_todo_eq, put_todo_eq, patch_toggle_eq, delete_todo_eq, Hno.
    done.
  - intros Hnd. rewrite (delete_todo_eq param w).
    destruct (findIndex _ (todos (store w))) as [i|] eqn:Hi.
    + cbn [snd]. rewrite delete_todo_eq. cbn [saved store set_todos todos].
      rewrite findIndex_no_match; [done |].
      intros t Ht Hparam.
      apply findIndex_Some in Hi as (x & Hx & Hpx & _).
      rewrite Hparam in Hpx. apply Z.eqb_eq in Hpx.
      apply (deleted_id_gone _ _ _ Hnd Hx).
      rewrite Hpx. by apply list_elem_of_fmap_2.
    + cbn [snd]. by rewrite delete_todo_eq, Hi.
Qed.

Lemma unknown_id_not_found_witness :
  get_todo "999" two_todos =
    ({| status := 404; json := JMessage false "Todo not found" |}, two_todos) ∧
  delete_todo "1" (delete_todo "1" two_todos).2 =
    ({| status := 404; json := JMessage false "Todo not found" |},
     (delete_todo "1" two_todos).2).
Proof.
  split.
  - destruct (unknown_id_not_found two_todos "999" ∅) as [Hmissing _].
    apply Hmissing. intros t. rewrite two_todos_store. simpl.
    rewrite !elem_of_cons, elem_of_nil. by intros [-> | [-> | []]].
  - destruct (unknown_id_not_found two_todos "1" ∅) as [_ Hagain].
    apply Hagain. exact two_todos_ids.
Defined.

(** ** Deleting the completed todos *)

Section DeleteCompleted.
Implicit Type l : list Todo.

Lemma completed_is_bool (t : Todo) (c b : bool) :
  completed t = VBool c → completed_is b t = Bool.eqb c b.
Proof. intros Hc. unfold completed_is. by rewrite Hc. Qed.

Lemma filter_falsy_completed l :
  Forall (λ t, ∃ b, completed t = VBool b) l →
  List.filter (λ t, negb (truthy (completed t))) l =
  List.filter (completed_is false) l.
Proof.
  induction 1 as [|t l [b Hb] _ IH]; [done |]. simpl.
  rewrite (completed_is_bool _ _ _ Hb), Hb, IH. by destruct b.
Qed.

Lemma filter_partition_length l :
  Forall (λ t, ∃ b, completed t = VBool b) l →
  (length (List.filter (completed_is true) l) +
   length (List.filter (completed_is false) l))%nat = length l.
Proof.
  induction 1 as [|t l [b Hb] _ IH]; [done |]. simpl.
  rewrite !(completed_is_bool _ _ _ Hb). destruct b; simpl; lia.
Qed.

Lemma filter_none_completed l :
  Forall (λ t, ∃ b, completed t = VBool b) l →
  List.filter (completed_is true) l = [] →
  List.filter (completed_is false) l = l.
Proof.
  induction 1 as [|t l [b Hb] _ IH]; [done |]. simpl.
  rewrite !(completed_is_bool _ _ _ Hb). destruct b; simpl; [done |].
  intros Hnone. by rewrite IH.
Qed.
End DeleteCompleted.

(** The case where every [completed] is a boolean.  Deleting the
    completed todos then keeps, in order, exactly the todos whose
    [completed] is false, and answers 200 with the message
    "Deleted N completed todos" where N is the number of todos whose
    [completed] was true, which is the number removed; [nextId] is
    unchanged.  When no todo is completed, N is 0 and the sequence is
    unchanged. *)
Theorem delete_completed_removes {text : Type} `{JSON text} (w : World text) :
  Forall (λ t, ∃ b, completed t = VBool b) (todos (store w)) →
  let done_ := List.filter (completed_is true) (todos (store w)) in
  let N := length done_ in
  (delete_completed w).1 =
    {| status := 200;
       json := JMessage true ("Deleted " +:+ pretty N +:+ " completed todos") |} ∧
  todos (store (delete_completed w).2) =
    List.filter (completed_is false) (todos (store w)) ∧
  (length (todos (store (delete_completed w).2)) + N)%nat =
    length (todos (store w)) ∧
  nextId (store (delete_completed w).2) = nextId (store w) ∧
  (done_ = [] → N = 0%nat ∧ todos (store (delete_completed w).2) = todos (store w)).
Proof.
  intros Hbool done_ N. rewrite delete_completed_eq. cbn [fst snd saved store].
  cbn [set_todos todos nextId].
  rewrite (filter_falsy_completed _ Hbool).
  pose proof (filter_partition_length _ Hbool) as Hlen.
  subst N done_. split_and!.
  - replace (length (todos (store w)) -
             length (List.filter (completed_is false) (todos (store w))))%nat
      with (length (List.filter (completed_is true) (todos (store w)))) by lia.
    done.
  - done.
  - lia.
  - done.
  - intros Hnone. split; [by rewrite Hnone |].
    by apply filter_none_completed.
Qed.

Lemma delete_completed_removes_witness :
  (delete_completed two_todos).1 =
    {| status := 200; json := JMessage true "Deleted 1 completed todos" |} ∧
  todos (store (delete_completed two_todos).2) = [call_home].
Proof.
  destruct (delete_completed_removes two_todos) as (Hresp & Htodos & _).
  - rewrite two_todos_store. simpl. repeat constructor; by eexists.
  - rewrite Hresp, Htodos, two_todos_store. split; reflexivity.
Defined.

Section Truthiness.
Implicit Type l : list Todo.

Lemma filter_truthy_partition l :
  (length (List.filter (λ t, truthy (completed t)) l) +
   length (List.filter (λ t, negb (truthy (completed t))) l))%nat = length l.
Proof.
  induction l as [|t l IH]; [done |]. simpl.
  destruct (truthy (completed t)); simpl; lia.
Qed.

Lemma filter_none_truthy l :
  List.filter (λ t, truthy (completed t)) l = [] →
  List.filter (λ t, negb (truthy (completed t))) l = l.
Proof.
  induction l as [|t l IH]; [done |]. simpl.
  destruct (truthy (completed t)); simpl; [done |].
  intros Hnone. by rewrite IH.
Qed.
End Truthiness.

(** C6, as the handler has it.  Deleting the completed todos removes
    exactly the todos whose [completed] is truthy ([true], and also a
    non-empty string, a non-zero number, an array or an object, which
    an update can store there) and keeps the others in their order; it
    answers 200 with the message "Deleted N completed todos" where N
    is the number of todos removed; [nextId] is unchanged.  When no
    todo has a truthy [completed], N is 0 and the sequence is
    unchanged.  For a boolean [completed], truthy means [true]. *)
Theorem delete_completed_removes_truthy {text : Type} `{JSON text}
    (w : World text) :
  let gone := List.filter (λ t, truthy (completed t)) (todos (store w)) in
  let N := length gone in
  (delete_completed w).1 =
    {| status := 200;
       json := JMessage true ("Deleted " +:+ pretty N +:+ " completed todos") |} ∧
  todos (store (delete_completed w).2) =
    List.filter (λ t, negb (truthy (completed t))) (todos (store w)) ∧
  (length (todos (store (delete_completed w).2)) + N)%nat =
    length (todos (store w)) ∧
  nextId (store (delete_completed w).2) = nextId (store w) ∧
  (gone = [] → N = 0%nat ∧ todos (store (delete_completed w).2) = todos (store w)) ∧
  (∀ t b, completed t = VBool b → truthy (completed t) = b).
Proof.
  intros gone N. rewrite delete_completed_eq. cbn [fst snd saved store].
  cbn [set_todos todos nextId].
  pose proof (filter_truthy_partition (todos (store w))) as Hlen.
  subst N gone. split_and!.
  - replace (length (todos (store w)) -
             length (List.filter (λ t, negb (truthy (completed t)))
                       (todos (store w))))%nat
      with (length (List.filter (λ t, truthy (completed t)) (todos (store w))))
      by lia.
    done.
  - done.
  - lia.
  - done.
  - intros Hnone. split; [by rewrite Hnone |]. by apply filter_none_truthy.
  - by intros t b ->.
Qed.

(** C6, as stated, fails: an update can store a [completed] that is not
    a boolean, and a truthy one is deleted and counted although it is
    not [true]. *)
Lemma delete_completed_counts_truthy :
  ¬ (∀ w : World Store,
       (delete_completed w).1 =
         {| status := 200;
            json := JMessage true
              ("Deleted " +:+
               pretty (length (List.filter (completed_is true) (todos (store w))))
               +:+ " completed todos") |} ∧
       todos (store (delete_completed w).2) =
         List.filter (λ t, negb (completed_is true t)) (todos (store w))).
Proof.
  intros Hclaim.
  destruct (Hclaim (serve [PostTodo buy_milk;
                           PutTodo "1" {[ "completed" := VStr "no" ]}] cold).2)
    as [Hresp _].
  vm_compute in Hresp. discriminate.
Qed.

(** ** The store invariant *)

Section Invariant.
Context {text : Type} `{JSON text}.
Implicit Types (w : World text) (l : list Todo).

Lemma ids_insert l i (old new : Todo) :
  l !! i = Some old → id new = id old → id <$> <[i := new]> l = id <$> l.
Proof.
  intros Hold Hid. rewrite list_fmap_insert, Hid.
  apply list_insert_id. by rewrite list_lookup_fmap, Hold.
Qed.

Lemma ids_alter l i (f : Todo → Todo) :
  (∀ t, id (f t) = id t) → id <$> alter f i l = id <$> l.
Proof.
  intros Hf. revert i.
  induction l as [|a l IH]; intros [|i]; simpl; [done | done | |].
  - by rewrite Hf.
  - f_equal. apply IH.
Qed.

Lemma ids_filter (p : Todo → bool) l :
  (id <$> List.filter p l) `sublist_of` (id <$> l).
Proof.
  induction l as [|a l IH]; simpl; [constructor |].
  destruct (p a); simpl; by constructor.
Qed.

Lemma well_numbered_sublist l l' (n : Z) :
  well_numbered {| todos := l; nextId := n |} →
  (id <$> l') `sublist_of` (id <$> l) →
  well_numbered {| todos := l'; nextId := n |}.
Proof.
  intros [Hnd Hlt] Hsub. split; simpl in *.
  - by eapply sublist_NoDup.
  - intros k Hk. apply Hlt. by eapply elem_of_sublist.
Qed.

Lemma well_numbered_same_ids (s s' : Store) :
  ids s' = ids s → nextId s' = nextId s → well_numbered s → well_numbered s'.
Proof. unfold well_numbered. by intros -> ->. Qed.

Lemma well_numbered_push (s : Store) (t : Todo) :
  id t = nextId s → well_numbered s →
  well_numbered {| todos := todos s ++ [t]; nextId := nextId s + 1 |}.
Proof.
  intros Hid [Hnd Hlt]. unfold well_numbered, ids in *. simpl.
  rewrite fmap_app. simpl. split.
  - apply NoDup_app. split_and!; [done | | apply NoDup_singleton].
    intros k Hk Hk'. apply list_elem_of_singleton in Hk'.
    specialize (Hlt k Hk). lia.
  - intros k Hk. apply elem_of_app in Hk as [Hk | Hk].
    + specialize (Hlt k Hk). lia.
    + apply list_elem_of_singleton in Hk. lia.
Qed.

Lemma issued_cons (r : Response) (rs : list Response) :
  issued (r :: rs) = (issued [r] ++ issued rs)%list.
Proof. unfold issued. simpl. by destruct (match status r with 201%nat => _ | _ => _ end). Qed.

(** One request keeps the invariant, never lowers the counter, and
    hands out only ids between the old and the new counter. *)
Lemma handle_step (r : Request) w :
  well_numbered (store w) →
  well_numbered (store (handle r w).2) ∧
  nextId (store w) ≤ nextId (store (handle r w).2) ∧
  ∀ n, n ∈ issued [(handle r w).1] →
       nextId (store w) ≤ n < nextId (store (handle r w).2).
Proof.
  intros Hinv.
  destruct r as [|param|body|param body|param|param| |]; cbn [handle].
  - split_and!; [done | done |]. intros n Hn. inversion Hn.
  - rewrite get_todo_eq. cbn [fst snd]. split_and!; [done | done |].
    intros n Hn. destruct (findIndex _ _); inversion Hn.
  - destruct (body !! "title") as [t|] eqn:Ht.
    + destruct (truthy t) eqn:Htrue.
      * rewrite (post_todo_accepted body w t Ht Htrue). cbn [fst snd saved store].
        split_and!.
        -- by apply well_numbered_push.
        -- simpl. lia.
        -- intros n Hn. apply list_elem_of_singleton in Hn. simpl in *. lia.
      * rewrite post_todo_rejected; [| by (unfold falsy; rewrite Ht, Htrue)].
        split_and!; [done | done |]. intros n Hn. inversion Hn.
    + rewrite post_todo_rejected; [| by (unfold falsy; rewrite Ht)].
      split_and!; [done | done |]. intros n Hn. inversion Hn.
  - rewrite put_todo_eq.
    destruct (findIndex _ _) as [i|] eqn:Hi; cbn [fst snd].
    + apply findIndex_Some in Hi as (old & Hold & _).
      cbn [saved store]. split_and!.
      * apply (well_numbered_same_ids (store w)); [| reflexivity | exact Hinv].
        unfold ids. cbn [set_todos todos].
        by apply (ids_insert _ _ old); [| rewrite (lookup_total_Some _ _ _ Hold)].
      * done.
      * intros n Hn. inversion Hn.
    + split_and!; [done | done |]. intros n Hn. inversion Hn.
  - rewrite patch_toggle_eq.
    destruct (findIndex _ _) as [i|] eqn:Hi; cbn [fst snd].
    + cbn [saved store]. split_and!.
      * apply (well_numbered_same_ids (store w)); [| reflexivity | exact Hinv].
        unfold ids. cbn [set_todos todos]. by rewrite !ids_alter.
      * done.
      * intros n Hn. inversion Hn.
    + split_and!; [done | done |]. intros n Hn. inversion Hn.
  - rewrite delete_todo_eq.
    destruct (findIndex _ _) as [i|] eqn:Hi; cbn [fst snd].
    + cbn [saved store]. split_and!.
      * destruct (store w) as [l k]. apply (well_numbered_sublist l); [done |].
        simpl. rewrite list_fmap_delete. apply sublist_delete.
      * done.
      * intros n Hn. inversion Hn.
    + split_and!; [done | done |]. intros n Hn. inversion Hn.
  - rewrite delete_completed_eq. cbn [fst snd saved store]. split_and!.
    + destruct (store w) as [l k]. apply (well_numbered_sublist l); [done |].
      apply ids_filter.
    + done.
    + intros n Hn. inversion Hn.
  - split_and!; [done | done |]. intros n Hn. inversion Hn.
Qed.

Lemma serve_cons (r : Request) (rs : list Request) w :
  serve (r :: rs) w =
  ((handle r w).1 :: (serve rs (handle r w).2).1, (serve rs (handle r w).2).2).
Proof.
  cbn [serve]. unfold St.bind, St.ret.
  destruct (handle r w) as [a w1]. cbn [fst snd].
  by destruct (serve rs w1).
Qed.

Lemma serve_steps (rs : list Request) w :
  well_numbered (store w) →
  well_numbered (store (serve rs w).2) ∧
  nextId (store w) ≤ nextId (store (serve rs w).2) ∧
  ∀ n, n ∈ issued (serve rs w).1 →
       nextId (store w) ≤ n < nextId (store (serve rs w).2).
Proof.
  revert w. induction rs as [|r rs IH]; intros w Hinv.
  - split_and!; [done | done |]. intros n Hn. inversion Hn.
  - rewrite serve_cons. cbn [fst snd].
    destruct (handle_step r w Hinv) as (Hinv1 & Hle1 & Hiss1).
    destruct (IH _ Hinv1) as (Hinv2 & Hle2 & Hiss2).
    split_and!; [done | lia |].
    intros n Hn. rewrite issued_cons in Hn.
    apply elem_of_app in Hn as [Hn | Hn].
    + specialize (Hiss1 n Hn). lia.
    + specialize (Hiss2 n Hn). lia.
Qed.
End Invariant.

(** C7.  Whatever requests a process booted with the empty store and
    [nextId = 1] has served, the ids of its todos are pairwise distinct
    and [nextId] is strictly greater than the id of every todo in the
    store and than every id a creation has handed out so far. *)
Theorem ids_distinct_below_nextId {text : Type} `{JSON text}
    (d : Disk text) (c : nat → string) (rs : list Request) :
  NoDup (ids (store (serve rs (boot d c)).2)) ∧
  (∀ t, t ∈ todos (store (serve rs (boot d c)).2) →
        id t < nextId (store (serve rs (boot d c)).2)) ∧
  (∀ n, n ∈ issued (serve rs (boot d c)).1 →
        0 < n < nextId (store (serve rs (boot d c)).2)).
Proof.
  assert (well_numbered (store (boot d c))) as Hboot.
  { split; [apply NoDup_nil_2 | intros n Hn; inversion Hn]. }
  destruct (serve_steps rs _ Hboot) as ([Hnd Hlt] & _ & Hiss).
  split_and!.
  - done.
  - intros t Ht. apply Hlt. by apply list_elem_of_fmap_2.
  - intros n Hn. specialize (Hiss n Hn). simpl in Hiss. lia.
Qed.


(** ** Titles *)

Section Titles.
Context {text : Type} `{JSON text}.
Implicit Types (w : World text) (l : list Todo).


End Titles.




(** ** Path parameters *)

Section ParseInt.
Implicit Types (c : ascii) (s p r : string).

Lemma radix_digit_decimal c :
  radix_digit 10 c =
  if is_decimal_digit c then Some (Z.of_N (Ascii.N_of_ascii c) - 48) else None.
Proof.
  unfold radix_digit, digit_value, is_decimal_digit.
  set (n := Z.of_N (Ascii.N_of_ascii c)).
  destruct ((48 <=? n) && (n <=? 57)) eqn:Hdec.
  - apply andb_true_iff in Hdec as [Hlo Hhi].
    apply Z.leb_le in Hlo, Hhi.
    by replace (n - 48 <? 10) with true by (symmetry; apply Z.ltb_lt; lia).
  - destruct ((97 <=? n) && (n <=? 122)) eqn:Hlower.
    + apply andb_true_iff in Hlower as [Hlo _]. apply Z.leb_le in Hlo.
      by replace (n - 87 <? 10) with false by (symmetry; apply Z.ltb_ge; lia).
    + destruct ((65 <=? n) && (n <=? 90)) eqn:Hupper; [| done].
      apply andb_true_iff in Hupper as [Hlo _]. apply Z.leb_le in Hlo.
      by replace (n - 55 <? 10) with false by (symmetry; apply Z.ltb_ge; lia).
Qed.

Lemma decimal_digit_code c :
  is_decimal_digit c = true → 48 ≤ Z.of_N (Ascii.N_of_ascii c) ≤ 57.
Proof.
  unfold is_decimal_digit. intros Hc.
  apply andb_true_iff in Hc as [Hlo Hhi]. apply Z.leb_le in Hlo, Hhi. lia.
Qed.

(** A decimal digit is none of the characters [parseInt] treats
    specially. *)
Lemma decimal_digit_plain c (k : ascii) :
  is_decimal_digit c = true →
  ¬ (48 ≤ Z.of_N (Ascii.N_of_ascii k) ≤ 57) →
  Ascii.eqb c k = false.
Proof.
  intros Hc Hk. destruct (Ascii.eqb_spec c k) as [-> | _]; [| done].
  by apply decimal_digit_code in Hc.
Qed.

Lemma decimal_digit_not_space c :
  is_decimal_digit c = true → is_white_space c = false.
Proof.
  intros Hc. apply decimal_digit_code in Hc. unfold is_white_space.
  set (n := Z.of_N (Ascii.N_of_ascii c)) in *.
  repeat (apply orb_false_iff; split).
  - apply andb_false_iff. right. apply Z.leb_gt. lia.
  - apply Z.eqb_neq. lia.
  - apply Z.eqb_neq. lia.
Qed.

Lemma digits_prefix_no_digit s :
  starts_with_digit s = false → digits_prefix 10 s = [].
Proof.
  destruct s as [|c s]; simpl; [done |].
  intros Hc. by rewrite radix_digit_decimal, Hc.
Qed.

(** A string that begins with no digit after white space and sign
    parses to [NaN]. *)
Lemma parseInt_no_digit s :
  starts_with_digit (unsigned_part s) = false → parseInt s = None.
Proof.
  unfold unsigned_part, parseInt. intros Hs.
  destruct (has_hex_prefix (strip_sign (trim_start s))) eqn:Hhex.
  - exfalso. destruct (strip_sign (trim_start s)) as [|c0 [|c1 r]]; try done.
    simpl in Hhex, Hs. apply andb_true_iff in Hhex as [Hzero _].
    apply Ascii.eqb_eq in Hzero as ->. done.
  - by rewrite digits_prefix_no_digit.
Qed.



End ParseInt.

(** The parameters with no digit at all where a number would begin.
    For every path parameter that, after leading white space and one
    optional sign, does not begin with a decimal digit, [parseInt]
    gives [NaN], which is strictly equal to no id; get, update, toggle
    and delete then answer 404 "Todo not found" (not 400) and leave the
    store, the disk and the clock as they were. *)
Theorem digitless_id_not_found {text : Type} `{JSON text}
    (w : World text) (param : string) (body : Body) :
  starts_with_digit (unsigned_part param) = false →
  parseInt param = None ∧
  (∀ t : Todo, strict_eq (id t) (parseInt param) = false) ∧
  get_todo param w =
    ({| status := 404; json := JMessage false "Todo not found" |}, w) ∧
  put_todo param body w =
    ({| status := 404; json := JMessage false "Todo not found" |}, w) ∧
  patch_toggle param w =
    ({| status := 404; json := JMessage false "Todo not found" |}, w) ∧
  delete_todo param w =
    ({| status := 404; json := JMessage false "Todo not found" |}, w).
Proof.
  intros Hparam. apply parseInt_no_digit in Hparam.
  rewrite get_todo_eq, put_todo_eq, patch_toggle_eq, delete_todo_eq, Hparam.
  rewrite findIndex_no_match by done. done.
Qed.

Lemma digitless_id_not_found_witness :
  parseInt "abc" = None ∧
  get_todo "abc" two_todos =
    ({| status := 404; json := JMessage false "Todo not found" |}, two_todos).
Proof.
  destruct (digitless_id_not_found two_todos "abc" ∅) as (Hnan & _ & Hget & _).
  - reflexivity.
  - by split.
Defined.

Section NaN.
Implicit Types (c : ascii) (s : string).

Lemma radix_digit_hex c :
  radix_digit 16 c = None ↔ is_hex_digit c = false.
Proof.
  unfold radix_digit, digit_value, is_hex_digit.
  set (n := Z.of_N (Ascii.N_of_ascii c)).
  destruct (Z.leb_spec 48 n), (Z.leb_spec n 57), (Z.leb_spec 97 n),
    (Z.leb_spec n 122), (Z.leb_spec n 102), (Z.leb_spec 65 n),
    (Z.leb_spec n 90), (Z.leb_spec n 70); cbn [andb orb]; try lia;
    try (split; discriminate || done);
    match goal with
    | |- context [?a <? 16] => destruct (Z.ltb_spec a 16); try lia
    end; split; discriminate || done.
Qed.

Lemma digits_prefix_decimal_nil s :
  digits_prefix 10 s = [] ↔ starts_with_digit s = false.
Proof.
  destruct s as [|c s]; simpl; [done |].
  rewrite radix_digit_decimal. by destruct (is_decimal_digit c).
Qed.

Lemma digits_prefix_hex_nil s :
  digits_prefix 16 s = [] ↔ starts_with_hex_digit s = false.
Proof.
  destruct s as [|c s]; cbn [digits_prefix starts_with_hex_digit]; [done |].
  rewrite <- radix_digit_hex. by destruct (radix_digit 16 c).
Qed.

(** [parseInt] gives [NaN] exactly on the parameters that begin with no
    number. *)
Lemma parseInt_None_iff s : parseInt s = None ↔ no_number_prefix s = true.
Proof.
  unfold parseInt, no_number_prefix, unsigned_part.
  set (u := strip_sign (trim_start s)).
  destruct (has_hex_prefix u).
  - rewrite negb_true_iff, <- digits_prefix_hex_nil.
    by destruct (digits_prefix 16 (strip_hex_prefix u)).
  - rewrite negb_true_iff, <- digits_prefix_decimal_nil.
    by destruct (digits_prefix 10 u).
Qed.
End NaN.

(** C9, as the handlers have it.  The path parameters that parse to
    [NaN] are exactly those that begin with no number: after leading
    white space and one optional sign they do not begin with a decimal
    digit, or they begin with [0x] or [0X] with no hexadecimal digit
    after it.  For every such parameter the id is strictly equal to no
    todo's id, and get, update, toggle and delete answer 404 "Todo not
    found" (not 400) and leave the store, the disk and the clock as
    they were.  Every other parameter parses to a number. *)
Theorem nan_id_not_found {text : Type} `{JSON text}
    (w : World text) (param : string) (body : Body) :
  (parseInt param = None ↔ no_number_prefix param = true) ∧
  (no_number_prefix param = false → ∃ n, parseInt param = Some n) ∧
  (no_number_prefix param = true →
   (∀ t : Todo, strict_eq (id t) (parseInt param) = false) ∧
   get_todo param w =
     ({| status := 404; json := JMessage false "Todo not found" |}, w) ∧
   put_todo param body w =
     ({| status := 404; json := JMessage false "Todo not found" |}, w) ∧
   patch_toggle param w =
     ({| status := 404; json := JMessage false "Todo not found" |}, w) ∧
   delete_todo param w =
     ({| status := 404; json := JMessage false "Todo not found" |}, w)).
Proof.
  split_and!.
  - apply parseInt_None_iff.
  - intros Hnum. destruct (parseInt param) as [n|] eqn:Hparse; [by exists n |].
    apply parseInt_None_iff in Hparse. congruence.
  - intros Hnan. apply parseInt_None_iff in Hnan.
    rewrite get_todo_eq, put_todo_eq, patch_toggle_eq, delete_todo_eq, Hnan.
    rewrite findIndex_no_match by done. done.
Qed.

Lemma nan_id_not_found_witness :
  get_todo "abc" two_todos =
    ({| status := 404; json := JMessage false "Todo not found" |}, two_todos) ∧
  get_todo "0xg" two_todos =
    ({| status := 404; json := JMessage false "Todo not found" |}, two_todos) ∧
  delete_todo "-0X" two_todos =
    ({| status := 404; json := JMessage false "Todo not found" |}, two_todos) ∧
  ∃ n, parseInt "1abc" = Some n.
Proof.
  destruct (nan_id_not_found two_todos "abc" ∅) as (_ & _ & Habc).
  destruct (nan_id_not_found two_todos "0xg" ∅) as (_ & _ & Hhex).
  destruct (nan_id_not_found two_todos "-0X" ∅) as (_ & _ & Hneg).
  destruct (nan_id_not_found two_todos "1abc" ∅) as (_ & Hnum & _).
  destruct (Habc eq_refl) as (_ & Hget1 & _).
  destruct (Hhex eq_refl) as (_ & Hget2 & _).
  destruct (Hneg eq_refl) as (_ & _ & _ & _ & Hdel).
  split_and!; [exact Hget1 | exact Hget2 | exact Hdel | exact (Hnum eq_refl)].
Defined.

(** C9, as stated, fails: a parameter that is not a number but begins
    with digits parses to the number the digits denote, and a todo with
    that id is found. *)
Lemma non_numeric_id_found :
  ¬ (∀ (w : World Store) (param : string),
       is_numeral param = false →
       get_todo param w =
       ({| status := 404; json := JMessage false "Todo not found" |}, w)).
Proof.
  intros Hclaim. specialize (Hclaim two_todos "1abc" eq_refl).
  rewrite get_todo_eq, two_todos_store in Hclaim.
  vm_compute in Hclaim. discriminate.
Qed.




(** The tenth todo answers to [0xa]; nothing answers to [0xg]. *)
Example hex_id_served :
  let w := (serve (replicate 10 (PostTodo buy_milk)) cold).2 in
  (∃ t, (get_todo "0xa" w).1 = {| status := 200; json := JTodo true t |} ∧
        id t = 10) ∧
  parseInt "0xg" = None.
Proof. vm_compute. split; [| done]. by eexists. Qed.

(** * Further properties of the code *)

(** ** Loading at start-up *)

Section Loading.
Context {text : Type} `{JSON text}.
Implicit Types (w : World text).

Lemma loadData_eq w :
  loadData w =
  (tt, if faulty (disk w) then w
       else match file (disk w) with
            | None => saved (store w) 0 w
            | Some data =>
                match JSON_parse data with
                | None => w
                | Some parsed =>
                    {| store := {| todos := array_or_else (parsed_todos parsed) [];
                                   nextId := number_or_else (parsed_nextId parsed) 1 |};
                       disk := disk w; clock := clock w; reads := reads w |}
                end
            end).
Proof.
  unfold loadData, St.bind, readFile, St.modify, St.ret.
  destruct (faulty (disk w)) eqn:Hf; [done |].
  destruct (file (disk w)) as [data|] eqn:Hfile.
  - by destruct (JSON_parse data).
  - by rewrite saveData_eq.
Qed.
End Loading.

(** X1.  When the snapshot cannot be read (the device fails) or cannot
    be parsed, [loadData] changes nothing: the store keeps the state it
    had, the disk is not written and the clock is not read. *)
Theorem loadData_failure_keeps_state {text : Type} `{JSON text}
    (w : World text) :
  faulty (disk w) = true ∨
  (∃ data, file (disk w) = Some data ∧ JSON_parse data = None) →
  loadData w = (tt, w).
Proof.
  intros Hfail. rewrite loadData_eq. f_equal.
  destruct Hfail as [-> | (data & Hfile & Hparse)]; [done |].
  destruct (faulty (disk w)); [done |]. by rewrite Hfile, Hparse.
Qed.

Lemma loadData_failure_keeps_state_witness :
  loadData (with_disk {| file := None; faulty := true |} two_todos) =
  (tt, with_disk {| file := None; faulty := true |} two_todos).
Proof.
  apply (loadData_failure_keeps_state
           (with_disk {| file := None; faulty := true |} two_todos)).
  by left.
Defined.

(** X2.  When there is no snapshot file on a working disk, [loadData]
    keeps the store and creates the file, which then holds the store
    as it is (at start-up: the empty sequence and [nextId = 1]). *)
Theorem loadData_cold_start_creates_file {text : Type} `{JSON text}
    (w : World text) :
  faulty (disk w) = false → file (disk w) = None →
  store (loadData w).2 = store w ∧
  file (disk (loadData w).2) = Some (JSON_stringify (store w)) ∧
  faulty (disk (loadData w).2) = false ∧
  reads (loadData w).2 = reads w.
Proof.
  intros Hf Hfile. rewrite loadData_eq. cbn [snd].
  rewrite Hf, Hfile. cbn [saved store disk reads]. unfold written.
  by rewrite Hf.
Qed.

Lemma loadData_cold_start_creates_file_witness :
  store (loadData cold).2 = emptyStore ∧
  file (disk (loadData cold).2) = Some emptyStore.
Proof.
  destruct (loadData_cold_start_creates_file cold) as (Hs & Hfile & _);
    [reflexivity | reflexivity |].
  split; [exact Hs | exact Hfile].
Defined.

(** X3.  When the snapshot parses, [loadData] replaces the whole store
    by what the snapshot holds, whatever the store was: a missing
    [todos] gives the empty sequence, a missing or zero [nextId] gives
    1, so the loaded [nextId] is never 0.  The file is left as it
    is. *)
Theorem loadData_defaults {text : Type} `{JSON text}
    (w : World text) (data : text) (parsed : Parsed) :
  faulty (disk w) = false → file (disk w) = Some data →
  JSON_parse data = Some parsed →
  todos (store (loadData w).2) =
    match parsed_todos parsed with Some l => l | None => [] end ∧
  nextId (store (loadData w).2) =
    match parsed_nextId parsed with
    | Some n => if n =? 0 then 1 else n
    | None => 1
    end ∧
  nextId (store (loadData w).2) ≠ 0 ∧
  disk (loadData w).2 = disk w.
Proof.
  intros Hf Hfile Hparse. rewrite loadData_eq. cbn [snd].
  rewrite Hf, Hfile, Hparse. cbn [store todos nextId disk].
  split_and!; [done | done | | done].
  unfold number_or_else. destruct (parsed_nextId parsed) as [n|]; [| done].
  by destruct (Z.eqb_spec n 0).
Qed.

Lemma loadData_defaults_witness :
  nextId (store (loadData
    (boot {| file := Some {| todos := []; nextId := 0 |}; faulty := false |}
       millis)).2) = 1.
Proof.
  destruct (loadData_defaults
              (boot {| file := Some {| todos := []; nextId := 0 |};
                       faulty := false |} millis)
              {| todos := []; nextId := 0 |}
              {| parsed_todos := Some []; parsed_nextId := Some 0 |})
    as (_ & Hnext & _); [reflexivity | reflexivity | reflexivity |].
  exact Hnext.
Defined.

(** ** Persistence failures and the responses *)

Section Disk.
Context {text : Type} `{JSON text}.
Implicit Types (w : World text) (d : Disk text).

(** A handler either leaves the world as it is or ends with one
    attempt to save the store it has built. *)
Lemma handle_world (r : Request) w :
  (handle r w).2 = w ∨
  ∃ k, (handle r w).2 = saved (store (handle r w).2) k w.
Proof.
  destruct r as [|param|body|param body|param|param| |]; cbn [handle].
  - by left.
  - rewrite get_todo_eq. by left.
  - destruct (body !! "title") as [t|] eqn:Ht.
    + destruct (truthy t) eqn:Htrue.
      * rewrite (post_todo_accepted body w t Ht Htrue). right. by exists 2%nat.
      * rewrite post_todo_rejected; [by left |]. unfold falsy. by rewrite Ht, Htrue.
    + rewrite post_todo_rejected; [by left |]. unfold falsy. by rewrite Ht.
  - rewrite put_todo_eq. destruct (findIndex _ _); [| by left].
    right. by exists 1%nat.
  - rewrite patch_toggle_eq. destruct (findIndex _ _); [| by left].
    right. by exists 1%nat.
  - rewrite delete_todo_eq. destruct (findIndex _ _); [| by left].
    right. by exists 0%nat.
  - rewrite delete_completed_eq. right. by exists 0%nat.
  - by left.
Qed.

Lemma handle_with_disk (r : Request) w d :
  (handle r (with_disk d w)).1 = (handle r w).1 ∧
  store (handle r (with_disk d w)).2 = store (handle r w).2 ∧
  clock (handle r (with_disk d w)).2 = clock (handle r w).2 ∧
  reads (handle r (with_disk d w)).2 = reads (handle r w).2.
Proof.
  destruct r as [|param|body|param body|param|param| |]; cbn [handle].
  - done.
  - rewrite !get_todo_eq. done.
  - destruct (body !! "title") as [t|] eqn:Ht.
    + destruct (truthy t) eqn:Htrue.
      * rewrite !(post_todo_accepted body _ t Ht Htrue). done.
      * rewrite !post_todo_rejected by (unfold falsy; by rewrite Ht, Htrue). done.
    + rewrite !post_todo_rejected by (unfold falsy; by rewrite Ht). done.
  - rewrite !put_todo_eq. cbn [with_disk store].
    destruct (findIndex _ _); done.
  - rewrite !patch_toggle_eq. cbn [with_disk store].
    destruct (findIndex _ _); done.
  - rewrite !delete_todo_eq. cbn [with_disk store].
    destruct (findIndex _ _); done.
  - rewrite !delete_completed_eq. done.
  - done.
Qed.

Lemma handle_with_disk_world (r : Request) w d :
  (handle r (with_disk d w)).2 =
  with_disk (disk (handle r (with_disk d w)).2) (handle r w).2.
Proof.
  destruct (handle_with_disk r w d) as (_ & Hstore & Hclock & Hreads).
  destruct (handle r (with_disk d w)) as [a [s1 d1 c1 r1]].
  destruct (handle r w) as [b [s2 d2 c2 r2]].
  cbn [fst snd store reads disk with_disk clock] in *. by subst.
Qed.

Lemma serve_with_disk (rs : list Request) w d :
  (serve rs (with_disk d w)).1 = (serve rs w).1 ∧
  store (serve rs (with_disk d w)).2 = store (serve rs w).2.
Proof.
  revert w d. induction rs as [|r rs IH]; intros w d; [done |].
  rewrite !serve_cons. cbn [fst snd].
  destruct (handle_with_disk r w d) as (Hresp & _).
  rewrite handle_with_disk_world.
  destruct (IH (handle r w).2 (disk (handle r (with_disk d w)).2)) as [-> ->].
  by rewrite Hresp.
Qed.

Lemma handle_in_sync (r : Request) w : in_sync w → in_sync (handle r w).2.
Proof.
  intros [Hf Hfile]. destruct (handle_world r w) as [-> | [k ->]]; [done |].
  unfold in_sync, saved, written. cbn [disk store]. by rewrite Hf.
Qed.

Lemma serve_in_sync (rs : list Request) w : in_sync w → in_sync (serve rs w).2.
Proof.
  revert w. induction rs as [|r rs IH]; intros w Hw; [done |].
  rewrite serve_cons. cbn [snd]. by apply IH, handle_in_sync.
Qed.
End Disk.

(** X4.  A failure to persist never shows in a response: two processes
    that differ only in their disks (one may fail on every write, or
    hold another file) give the same responses to the same requests and
    reach the same store. *)
Theorem responses_ignore_disk {text : Type} `{JSON text}
    (rs : list Request) (w : World text) (d : Disk text) :
  (serve rs (with_disk d w)).1 = (serve rs w).1 ∧
  store (serve rs (with_disk d w)).2 = store (serve rs w).2.
Proof. apply serve_with_disk. Qed.

(** X6.  Restart after requests served one at a time.  A process
    started on a working disk with no snapshot file, after serving any
    requests each of which was answered before the next arrived (so
    that no two saves overlap), leaves a snapshot from which a newly
    started process loads exactly the store the first one had (same
    todos in the same order, same [nextId]), provided the runtime's
    JSON codec reads back what it wrote. *)
Theorem restart_restores_store {text : Type} `{JSONRoundTrip text}
    (d : Disk text) (c c' : nat → string) (rs : list Request) :
  faulty d = false → file d = None →
  store (startServer
           (boot (disk (serve rs (startServer (boot d c)).2).2) c')).2 =
  store (serve rs (startServer (boot d c)).2).2.
Proof.
  intros Hf Hfile. unfold startServer.
  destruct (loadData_cold_start_creates_file (boot d c) Hf Hfile)
    as (Hstore & Hwritten & Hworks & _).
  set (w1 := (loadData (boot d c)).2) in *.
  assert (in_sync w1) as Hsync.
  { split; [done |]. by rewrite Hwritten, Hstore. }
  assert (well_numbered (store w1)) as Hinv.
  { rewrite Hstore. split; [apply NoDup_nil_2 | intros n Hn; inversion Hn]. }
  destruct (serve_in_sync rs w1 Hsync) as [Hf2 Hfile2].
  destruct (serve_steps rs w1 Hinv) as (_ & Hle & _).
  rewrite Hstore in Hle. cbn [boot store emptyStore nextId] in Hle.
  rewrite loadData_eq. cbn [snd boot disk].
  rewrite Hf2, Hfile2, parse_stringify. cbn [store parsed_todos parsed_nextId].
  unfold array_or_else, number_or_else.
  destruct (Z.eqb_spec (nextId (store (serve rs w1).2)) 0) as [Hz | _]; [lia |].
  by destruct (store (serve rs w1).2).
Qed.

Lemma restart_restores_store_witness :
  store (startServer
           (boot (disk (serve [PostTodo buy_milk; PatchToggle "1"]
                          (startServer cold).2).2) millis)).2 =
  store (serve [PostTodo buy_milk; PatchToggle "1"] (startServer cold).2).2.
Proof.
  apply (restart_restores_store {| file := None; faulty := false |}
           millis millis [PostTodo buy_milk; PatchToggle "1"]); reflexivity.
Defined.

(** ** What one request can do to the store *)

Section Steps.
Context {text : Type} `{JSON text}.
Implicit Types (w : World text) (l : list Todo).

(** A request hands out no id and keeps the counter, or hands out the
    counter's value and advances it by one. *)
Lemma handle_issues (r : Request) w :
  (issued [(handle r w).1] = [] ∧
   nextId (store (handle r w).2) = nextId (store w)) ∨
  (issued [(handle r w).1] = [nextId (store w)] ∧
   nextId (store (handle r w).2) = nextId (store w) + 1).
Proof.
  destruct r as [|param|body|param body|param|param| |]; cbn [handle].
  - by left.
  - rewrite get_todo_eq. left. by destruct (findIndex _ _).
  - destruct (body !! "title") as [t|] eqn:Ht.
    + destruct (truthy t) eqn:Htrue.
      * rewrite (post_todo_accepted body w t Ht Htrue). by right.
      * rewrite post_todo_rejected; [by left |]. unfold falsy. by rewrite Ht, Htrue.
    + rewrite post_todo_rejected; [by left |]. unfold falsy. by rewrite Ht.
  - rewrite put_todo_eq. left. by destruct (findIndex _ _).
  - rewrite patch_toggle_eq. left. by destruct (findIndex _ _).
  - rewrite delete_todo_eq. left. by destruct (findIndex _ _).
  - rewrite delete_completed_eq. by left.
  - by left.
Qed.

Lemma elem_of_list_filter (p : Todo → bool) l (t : Todo) :
  t ∈ List.filter p l → t ∈ l.
Proof.
  induction l as [|a l IH]; simpl; [done |].
  destruct (p a).
  - intros [-> | Ht]%elem_of_cons; [left | right; by apply IH].
  - intros Ht. right. by apply IH.
Qed.

(** Every todo of the store after a request is the one just created,
    with the counter's value as id, or continues a todo of the store
    before, with the same [id] and [createdAt]. *)
Lemma handle_origin (r : Request) w (t' : Todo) :
  t' ∈ todos (store (handle r w).2) →
  id t' = nextId (store w) ∨
  ∃ t, t ∈ todos (store w) ∧ id t = id t' ∧ createdAt t = createdAt t'.
Proof.
  destruct r as [|param|body|param body|param|param| |]; cbn [handle].
  - intros Ht. right. by exists t'.
  - rewrite get_todo_eq. intros Ht. right. by exists t'.
  - destruct (body !! "title") as [t|] eqn:Ht.
    + destruct (truthy t) eqn:Htrue.
      * rewrite (post_todo_accepted body w t Ht Htrue). cbn [snd saved store todos].
        intros [Hin | Hin]%elem_of_app.
        -- right. by exists t'.
        -- apply list_elem_of_singleton in Hin as ->. by left.
      * rewrite post_todo_rejected by (unfold falsy; by rewrite Ht, Htrue).
        intros Hin. right. by exists t'.
    + rewrite post_todo_rejected by (unfold falsy; by rewrite Ht).
      intros Hin. right. by exists t'.
  - rewrite put_todo_eq.
    destruct (findIndex _ _) as [i|] eqn:Hi; cbn [snd];
      [| intros Hin; right; by exists t'].
    apply findIndex_Some in Hi as (old & Hold & _).
    cbn [saved store set_todos todos]. rewrite (lookup_total_Some _ _ _ Hold).
    intros (j & Hj)%list_elem_of_lookup. right.
    destruct (decide (i = j)) as [<- | Hne].
    + rewrite list_lookup_insert_eq in Hj by (by eapply lookup_lt_Some).
      injection Hj as <-. exists old. split; [| done].
      apply list_elem_of_lookup. by exists i.
    + rewrite list_lookup_insert_ne in Hj by done.
      exists t'. split; [| done]. apply list_elem_of_lookup. by exists j.
  - rewrite patch_toggle_eq.
    destruct (findIndex _ _) as [i|] eqn:Hi; cbn [snd];
      [| intros Hin; right; by exists t'].
    cbn [saved store set_todos todos].
    intros (j & Hj)%list_elem_of_lookup. right.
    destruct (decide (i = j)) as [<- | Hne].
    + rewrite !list_lookup_alter, !decide_True in Hj by done.
      destruct (todos (store w) !! i) as [t|] eqn:Ht; [| done].
      simpl in Hj. injection Hj as <-.
      exists t. split; [apply list_elem_of_lookup; by exists i | done].
    + rewrite !list_lookup_alter_ne in Hj by done.
      exists t'. split; [apply list_elem_of_lookup; by exists j | done].
  - rewrite delete_todo_eq.
    destruct (findIndex _ _) as [i|] eqn:Hi; cbn [snd];
      [| intros Hin; right; by exists t'].
    cbn [saved store set_todos todos]. intros Hin. right. exists t'.
    split; [| done]. eapply elem_of_sublist; [done | apply sublist_delete].
  - rewrite delete_completed_eq. cbn [snd saved store set_todos todos].
    intros Hin. right. exists t'. split; [| done].
    by eapply elem_of_list_filter.
  - intros Ht. right. by exists t'.
Qed.

(** No request reorders the todos: the ids after it are the ids before
    it with some left out, and at most the counter's value added at
    the end. *)
Lemma handle_order (r : Request) w :
  ids (store (handle r w).2) `sublist_of`
  (ids (store w) ++ [nextId (store w)])%list.
Proof.
  assert (∀ l' : list Z, l' `sublist_of` ids (store w) →
            l' `sublist_of` (ids (store w) ++ [nextId (store w)])%list) as Hweak.
  { intros l' Hl'. by apply sublist_inserts_r. }
  destruct r as [|param|body|param body|param|param| |]; cbn [handle].
  - by apply Hweak.
  - rewrite get_todo_eq. by apply Hweak.
  - destruct (body !! "title") as [t|] eqn:Ht.
    + destruct (truthy t) eqn:Htrue.
      * rewrite (post_todo_accepted body w t Ht Htrue). cbn [snd saved store].
        unfold ids. cbn [todos]. by rewrite fmap_app.
      * rewrite post_todo_rejected by (unfold falsy; by rewrite Ht, Htrue).
        by apply Hweak.
    + rewrite post_todo_rejected by (unfold falsy; by rewrite Ht).
      by apply Hweak.
  - rewrite put_todo_eq. apply Hweak.
    destruct (findIndex _ _) as [i|] eqn:Hi; cbn [snd]; [| done].
    apply findIndex_Some in Hi as (old & Hold & _).
    unfold ids. cbn [saved store set_todos todos].
    rewrite (ids_insert _ _ old); [done | done |].
    by rewrite (lookup_total_Some _ _ _ Hold).
  - rewrite patch_toggle_eq. apply Hweak.
    destruct (findIndex _ _) as [i|]; cbn [snd]; [| done].
    unfold ids. cbn [saved store set_todos todos]. by rewrite !ids_alter.
  - rewrite delete_todo_eq. apply Hweak.
    destruct (findIndex _ _) as [i|]; cbn [snd]; [| done].
    unfold ids. cbn [saved store set_todos todos].
    rewrite list_fmap_delete. apply sublist_delete.
  - rewrite delete_completed_eq. apply Hweak.
    unfold ids. cbn [snd saved store set_todos todos]. apply ids_filter.
  - by apply Hweak.
Qed.

End Steps.



(** X8.  The reading routes (list, get by id, health) never change
    anything, however many are served: store, disk and clock are as
    before. *)
Theorem reads_change_nothing {text : Type} `{JSON text}
    (rs : list Request) (w : World text) :
  Forall (λ r, read_only r = true) rs → (serve rs w).2 = w.
Proof.
  induction 1 as [|r rs Hr _ IH]; [done |].
  rewrite serve_cons. cbn [snd].
  assert ((handle r w).2 = w) as ->; [| done].
  destruct r; try done. cbn [handle]. by rewrite get_todo_eq.
Qed.

Lemma reads_change_nothing_witness :
  (serve [GetTodos; GetTodo "1"; GetTodo "x"; Health] two_todos).2 = two_todos.
Proof.
  apply (reads_change_nothing [GetTodos; GetTodo "1"; GetTodo "x"; Health]
           two_todos).
  repeat constructor.
Defined.

(** ** Ids over a run *)

Section Runs.
Context {text : Type} `{JSON text}.
Implicit Types (w : World text).



Lemma serve_origin (rs : list Request) w (t' : Todo) :
  t' ∈ todos (store (serve rs w).2) →
  nextId (store w) ≤ id t' ∨
  ∃ t, t ∈ todos (store w) ∧ id t = id t' ∧ createdAt t = createdAt t'.
Proof.
  revert w. induction rs as [|r rs IH]; intros w.
  - intros Hin. right. by exists t'.
  - rewrite serve_cons. cbn [snd]. intros Hin.
    assert (nextId (store w) ≤ nextId (store (handle r w).2)) as Hle.
    { destruct (handle_issues r w) as [[_ ->] | [_ ->]]; lia. }
    destruct (IH _ Hin) as [Hnew | (t1 & Hin1 & Hid1 & Hcreated1)]; [left; lia |].
    destruct (handle_origin r w t1 Hin1) as [Hnew | (t & Hin0 & Hid & Hcreated)].
    + left. lia.
    + right. exists t. split_and!; [done | congruence | congruence].
Qed.
End Runs.


(** X10.  Over any run, no request changes the [id] or the [createdAt]
    of a todo: every todo of the final store was created during the
    run (its id is at least the initial [nextId]) or continues a todo
    of the initial store with the same [id] and [createdAt]. *)
Theorem id_and_createdAt_kept {text : Type} `{JSON text}
    (rs : list Request) (w : World text) (t' : Todo) :
  t' ∈ todos (store (serve rs w).2) →
  nextId (store w) ≤ id t' ∨
  ∃ t, t ∈ todos (store w) ∧ id t = id t' ∧ createdAt t = createdAt t'.
Proof. apply serve_origin. Qed.

(** X11.  No request reorders the todos: the sequence of ids after a
    request is the sequence before it with some ids left out and at
    most one id, the value of [nextId], added at the end. *)
Theorem requests_keep_order {text : Type} `{JSON text}
    (r : Request) (w : World text) :
  ids (store (handle r w).2) `sublist_of`
  (ids (store w) ++ [nextId (store w)])%list.
Proof. apply handle_order. Qed.

Lemma id_and_createdAt_kept_witness :
  nextId (store two_todos) ≤ 2 ∨
  ∃ t, t ∈ todos (store two_todos) ∧ id t = 2 ∧
       createdAt t = "2024-05-01T09:30:00.002Z".
Proof.
  apply (id_and_createdAt_kept [PutTodo "2" mark_done; PatchToggle "2"] two_todos
           (mkTodo 2 (VStr "Call home") (VStr "") (VBool false)
              "2024-05-01T09:30:00.002Z" "2024-05-01T09:30:00.006Z")).
  vm_compute. apply list_elem_of_further, list_elem_of_here.
Defined.

(** ** Toggle and delete *)

Section Found.
Context {text : Type} `{JSON text}.
Implicit Types (w : World text) (l : list Todo).




End Found.







(** ** Reading back what was written *)




(** ** Deleting the completed todos again *)

Section Again.
Context {text : Type} `{JSON text}.

Lemma list_filter_idem (p : Todo → bool) (l : list Todo) :
  List.filter p (List.filter p l) = List.filter p l.
Proof.
  induction l as [|a l IH]; simpl; [done |].
  destruct (p a) eqn:Ha; simpl; [| done]. by rewrite Ha, IH.
Qed.

Lemma list_filter_Forall (p : Todo → bool) (l : list Todo) :
  Forall (λ t, p t = true) (List.filter p l).
Proof.
  induction l as [|a l IH]; simpl; [constructor |].
  destruct (p a) eqn:Ha; [by constructor | done].
Qed.
End Again.

(** X17.  After the completed todos are deleted, no todo of the store
    has a truthy [completed], whatever values the field held; deleting
    the completed todos once more answers "Deleted 0 completed todos"
    and leaves the store as it is. *)
Theorem delete_completed_again {text : Type} `{JSON text} (w : World text) :
  Forall (λ t, truthy (completed t) = false)
    (todos (store (delete_completed w).2)) ∧
  (delete_completed (delete_completed w).2).1 =
    {| status := 200; json := JMessage true "Deleted 0 completed todos" |} ∧
  store (delete_completed (delete_completed w).2).2 =
    store (delete_completed w).2.
Proof.
  rewrite !delete_completed_eq. cbn [fst snd saved store set_todos todos nextId].
  rewrite list_filter_idem, Nat.sub_diag. split_and!; [| done | done].
  eapply Forall_impl; [apply list_filter_Forall |].
  intros t Ht. by apply negb_true_iff.
Qed.

(** ** More on path parameters *)

Section Parameters.
Context {text : Type} `{JSON text}.
Implicit Types (w : World text) (s ws : string).

Lemma trim_start_app ws s :
  all_white_space ws = true → trim_start (ws +:+ s) = trim_start s.
Proof.
  induction ws as [|c ws IH]; [done |]. cbn [all_white_space].
  intros [Hc Hws]%andb_true_iff.
  change (String c ws +:+ s) with (String c (ws +:+ s)).
  cbn [trim_start]. rewrite Hc. by apply IH.
Qed.

Lemma parseInt_leading_space ws s :
  all_white_space ws = true → parseInt (ws +:+ s) = parseInt s.
Proof. intros Hws. unfold parseInt. by rewrite trim_start_app. Qed.

Lemma parseInt_plus s :
  starts_with_digit s = true → parseInt (String "+" s) = parseInt s.
Proof.
  destruct s as [|c s]; [done |]. cbn [starts_with_digit]. intros Hc.
  unfold parseInt.
  change (trim_start (String "+" (String c s))) with (String "+" (String c s)).
  change (sign_of (String "+" (String c s))) with 1.
  change (strip_sign (String "+" (String c s))) with (String c s).
  cbn [trim_start]. rewrite (decimal_digit_not_space _ Hc).
  cbn [sign_of strip_sign].
  by rewrite !(decimal_digit_plain c) by (done || vm_compute; intros [? ?]; done).
Qed.

(** The id-keyed handlers depend on the parameter through [parseInt]
    only. *)
Lemma handlers_by_parseInt (p q : string) (body : Body) w :
  parseInt p = parseInt q →
  get_todo p w = get_todo q w ∧
  put_todo p body w = put_todo q body w ∧
  patch_toggle p w = patch_toggle q w ∧
  delete_todo p w = delete_todo q w.
Proof.
  intros Hpq.
  by rewrite !get_todo_eq, !put_todo_eq, !patch_toggle_eq, !delete_todo_eq, Hpq.
Qed.
End Parameters.

(** X18.  Leading white space in the path parameter, and a plus sign
    before its digits, make no difference: get, update, toggle and
    delete behave as for the parameter without them. *)
Theorem leading_space_and_plus_ignored {text : Type} `{JSON text}
    (w : World text) (ws s : string) (body : Body) :
  all_white_space ws = true → starts_with_digit s = true →
  (get_todo (ws +:+ s) w = get_todo s w ∧
   put_todo (ws +:+ s) body w = put_todo s body w ∧
   patch_toggle (ws +:+ s) w = patch_toggle s w ∧
   delete_todo (ws +:+ s) w = delete_todo s w) ∧
  (get_todo (ws +:+ String "+" s) w = get_todo s w ∧
   put_todo (ws +:+ String "+" s) body w = put_todo s body w ∧
   patch_toggle (ws +:+ String "+" s) w = patch_toggle s w ∧
   delete_todo (ws +:+ String "+" s) w = delete_todo s w).
Proof.
  intros Hws Hs. split; apply handlers_by_parseInt.
  - by apply parseInt_leading_space.
  - rewrite parseInt_leading_space by done. by apply parseInt_plus.
Qed.

Lemma leading_space_and_plus_ignored_witness :
  get_todo " +2" two_todos = get_todo "2" two_todos.
Proof.
  destruct (leading_space_and_plus_ignored two_todos " " "2" ∅)
    as [_ (Hget & _)]; [reflexivity | reflexivity |].
  exact Hget.
Defined.

(** X19.  In a process booted with the empty store every todo has an
    id of at least 1, whatever requests were served; so a path
    parameter that parses to zero or to a negative number is answered
    404 by get, update, toggle and delete, which change nothing. *)
Theorem nonpositive_id_not_found {text : Type} `{JSON text}
    (d : Disk text) (c : nat → string) (rs : list Request)
    (param : string) (n : Z) (body : Body) :
  parseInt param = Some n → n ≤ 0 →
  (∀ t, t ∈ todos (store (serve rs (boot d c)).2) → 1 ≤ id t) ∧
  get_todo param (serve rs (boot d c)).2 =
    ({| status := 404; json := JMessage false "Todo not found" |},
     (serve rs (boot d c)).2) ∧
  put_todo param body (serve rs (boot d c)).2 =
    ({| status := 404; json := JMessage false "Todo not found" |},
     (serve rs (boot d c)).2) ∧
  patch_toggle param (serve rs (boot d c)).2 =
    ({| status := 404; json := JMessage false "Todo not found" |},
     (serve rs (boot d c)).2) ∧
  delete_todo param (serve rs (boot d c)).2 =
    ({| status := 404; json := JMessage false "Todo not found" |},
     (serve rs (boot d c)).2).
Proof.
  intros Hparam Hn.
  assert (∀ t, t ∈ todos (store (serve rs (boot d c)).2) → 1 ≤ id t) as Hpos.
  { intros t Ht.
    destruct (serve_origin rs (boot d c) t Ht) as [Hnew | (t0 & Hin & _)];
      [done | inversion Hin]. }
  split; [done |].
  rewrite get_todo_eq, put_todo_eq, patch_toggle_eq, delete_todo_eq, Hparam.
  rewrite findIndex_no_match; [done |].
  intros t Ht [= ->]. specialize (Hpos t Ht). lia.
Qed.

Lemma nonpositive_id_not_found_witness :
  get_todo "-1" two_todos =
  ({| status := 404; json := JMessage false "Todo not found" |}, two_todos).
Proof.
  destruct (nonpositive_id_not_found {| file := None; faulty := false |} millis
              [PostTodo buy_milk; PostTodo {[ "title" := VStr "Call home" ]};
               PatchToggle "1"] "-1" (-1) ∅)
    as (_ & Hget & _); [reflexivity | lia |].
  exact Hget.
Defined.

(** ** Which creations are refused, and what a mutation persists *)

Section Refused.
Implicit Types (v : value).

End Refused.


(** X21.  On a working disk, a request served alone (no other
    request's save in flight) that changes the store has saved the
    whole store by the time it answers: when it is answered 200 or 201
    and is not a reading route, the file holds the store as it is
    after the request. *)
Theorem mutation_persists_store {text : Type} `{JSON text}
    (r : Request) (w : World text) :
  faulty (disk w) = false → read_only r = false →
  status (handle r w).1 = 200%nat ∨ status (handle r w).1 = 201%nat →
  file (disk (handle r w).2) = Some (JSON_stringify (store (handle r w).2)) ∧
  faulty (disk (handle r w).2) = false.
Proof.
  intros Hf Hr Hstatus.
  assert (∀ s k, file (disk (saved s k w)) = Some (JSON_stringify s) ∧
                 faulty (disk (saved s k w)) = false) as Hsaved.
  { intros s k. unfold saved, written. cbn [disk]. by rewrite Hf. }
  destruct r as [|param|body|param body|param|param| |]; try done; cbn [handle] in *.
  - destruct (body !! "title") as [t|] eqn:Ht.
    + destruct (truthy t) eqn:Htrue.
      * rewrite (post_todo_accepted body w t Ht Htrue). apply Hsaved.
      * rewrite post_todo_rejected in Hstatus
          by (unfold falsy; by rewrite Ht, Htrue).
        by destruct Hstatus.
    + rewrite post_todo_rejected in Hstatus by (unfold falsy; by rewrite Ht).
      by destruct Hstatus.
  - rewrite put_todo_eq in *.
    destruct (findIndex _ _); [apply Hsaved | by destruct Hstatus].
  - rewrite patch_toggle_eq in *.
    destruct (findIndex _ _); [apply Hsaved | by destruct Hstatus].
  - rewrite delete_todo_eq in *.
    destruct (findIndex _ _); [apply Hsaved | by destruct Hstatus].
  - rewrite delete_completed_eq. apply Hsaved.
Qed.

Lemma mutation_persists_store_witness :
  file (disk (handle DeleteCompleted two_todos).2) =
  Some (store (handle DeleteCompleted two_todos).2).
Proof.
  destruct (mutation_persists_store DeleteCompleted two_todos) as [Hfile _];
    [reflexivity | reflexivity | by left |].
  exact Hfile.
Defined.
